(** * data_processing_functions.py: filter, aggregate and the city demo

    A shallow embedding of [src/data_processing_functions.py] and the
    properties its specification states about it.

    Conventions of the embedding
    - A Python call that may raise is a computation in [res]: [Ok v] is a
      normal return, [Raise e] an exception that propagates.
    - A Python [dict] is a [gmap]; a [list] is a [list]; a [set] is a [gset].
    - A Python [float] is an IEEE 754 binary64 number, [spec_float] of the
      standard library with [prec = 53] and [emax = 1024].
    - A Python [str] is a [string]. The models of [str.strip], [str.lower],
      [repr] and [float] treat the ASCII range as Python does and leave
      characters outside ASCII untouched. *)

From Stdlib Require Import ZArith String Ascii List Bool Lia.
From Stdlib Require Import Floats.SpecFloat.
From stdpp Require Import base option list gmap strings.

Import ListNotations.
Local Open Scope string_scope.
Local Open Scope list_scope.
Local Open Scope Z_scope.

(** ** Exceptions and fallible computations *)

Inductive exn : Type :=
  | TypeError
  | ValueError
  | OverflowError
  | ZeroDivisionError
  | KeyError
  | OSError
  | UnicodeDecodeError
  | CsvError.

Inductive res (A : Type) : Type :=
  | Ok (a : A)
  | Raise (e : exn).

Arguments Ok {A} a.
Arguments Raise {A} e.

#[global] Instance res_ret : MRet res := @Ok.

#[global] Instance res_bind : MBind res :=
  fun A B (f : A -> res B) (m : res A) =>
    match m with
    | Ok a => f a
    | Raise e => Raise e
    end.

(** [try: ... except Exception: ...] around a computation. Every member of
    [exn] is a subclass of Python's [Exception]. *)
Definition try_except {A : Type} (body : res A) (handler : A) : A :=
  match body with
  | Ok a => a
  | Raise _ => handler
  end.

(** ** The two generic operations *)

Section Generic.
Context {A : Type}.

(** [[d for d in dict_list if condition(d)]]: the records are visited in
    order, the condition is called once on each, and an exception of the
    condition ends the comprehension. *)
Fixpoint filter (condition : A -> res bool) (dict_list : list A) : res (list A) :=
  match dict_list with
  | [] => Ok []
  | d :: rest =>
      b ← condition d;
      kept ← filter condition rest;
      Ok (if b : bool then d :: kept else kept)
  end.
End Generic.

Section Aggregate.
Context {K : Type} `{Countable K} {V R : Type}.

(** [aggregation_key in d] *)
Definition contains (k : K) (d : gmap K V) : bool :=
  bool_decide (is_Some (d !! k)).

(** [d[aggregation_key]], which raises [KeyError] on a missing key. *)
Definition getitem (d : gmap K V) (k : K) : res V :=
  match d !! k with
  | Some v => Ok v
  | None => Raise KeyError
  end.

(** The [for d in dict_list] loop of [aggregate]; [vals] is the list being
    appended to. *)
Fixpoint aggregate_loop (aggregation_key : K) (vals : list V)
    (dict_list : list (gmap K V)) : res (list V) :=
  match dict_list with
  | [] => Ok vals
  | d :: rest =>
      if contains aggregation_key d then
        v ← getitem d aggregation_key;
        aggregate_loop aggregation_key (vals ++ [v]) rest
      else aggregate_loop aggregation_key vals rest
  end.

Definition aggregate (aggregation_key : K)
    (aggregation_function : list V -> res R)
    (dict_list : list (gmap K V)) : res R :=
  vals ← aggregate_loop aggregation_key [] dict_list;
  aggregation_function vals.
End Aggregate.

(** ** Strings: [str.strip] and [str.lower] *)

(** The ASCII characters Python counts as whitespace: tab, line feed,
    vertical tab, form feed, carriage return, the four separators
    0x1c-0x1f and the space. *)
Definition is_space (c : ascii) : bool :=
  let n := N_of_ascii c in
  ((9 <=? n) && (n <=? 13) || (28 <=? n) && (n <=? 32))%N.

Fixpoint lstrip (s : string) : string :=
  match s with
  | EmptyString => EmptyString
  | String c s' => if is_space c then lstrip s' else s
  end.

Fixpoint rstrip (s : string) : string :=
  match s with
  | EmptyString => EmptyString
  | String c s' =>
      match rstrip s' with
      | EmptyString => if is_space c then EmptyString else String c EmptyString
      | t => String c t
      end
  end.

(** [s.strip()] *)
Definition strip (s : string) : string := rstrip (lstrip s).

Definition lower_char (c : ascii) : ascii :=
  let n := N_of_ascii c in
  if ((65 <=? n) && (n <=? 90))%N then ascii_of_N (n + 32) else c.

(** [s.lower()] *)
Fixpoint lower (s : string) : string :=
  match s with
  | EmptyString => EmptyString
  | String c s' => String (lower_char c) (lower s')
  end.

(** Truth value of a string: [if s] holds for every string but the empty
    one. *)
Definition str_truthy (s : string) : bool :=
  match s with
  | EmptyString => false
  | String _ _ => true
  end.

(** ** Floats *)

Abbreviation float := spec_float.

Definition prec : Z := 53.
Definition emax : Z := 1024.

(** [float("nan")] *)
Definition nan : float := S754_nan.

Definition fadd : float -> float -> float := SFadd prec emax.
Definition fdiv : float -> float -> float := SFdiv prec emax.

(** [str(f) == 'nan']: Python prints a float as [nan] exactly when it is a
    NaN. *)
Definition is_nan (f : float) : bool :=
  match f with
  | S754_nan => true
  | _ => false
  end.

Definition is_zero (f : float) : bool :=
  match f with
  | S754_zero _ => true
  | _ => false
  end.

(** Conversion of an [int] to [float]: rounded to nearest, ties to even;
    [OverflowError] when the rounded value is out of range. *)
Definition float_of_int (z : Z) : res float :=
  match binary_normalize prec emax z 0 false with
  | S754_infinity _ => Raise OverflowError
  | f => Ok f
  end.

(** [a / n] for a float [a] and an int [n]: [n] is converted first, a zero
    divisor raises [ZeroDivisionError]. *)
Definition float_truediv_int (a : float) (n : Z) : res float :=
  b ← float_of_int n;
  if is_zero b then Raise ZeroDivisionError else Ok (fdiv a b).

(** [f > n] for a float [f] and an int [n]. Python compares the two exact
    values; a NaN compares false. *)
Definition float_gt_int (f : float) (n : Z) : bool :=
  match f with
  | S754_nan => false
  | S754_infinity s => negb s
  | S754_zero _ => n <? 0
  | S754_finite s m e =>
      let v := cond_Zopp s (Zpos m) in
      if 0 <=? e then n <? v * 2 ^ e else n * 2 ^ (- e) <? v
  end.

(** [sum(...)] over floats: the start value is the int [0], which the first
    addition converts to [0.0]; the terms are added from left to right.
    (CPython since 3.12 also carries a compensation term for the rounding
    errors; it can change the last bits of a finite sum, not whether the
    sum is a NaN.) *)
Definition float_sum (fs : list float) : float :=
  fold_left fadd fs (S754_zero false).

(** [sum(...)] over ints. *)
Definition int_sum (zs : list Z) : Z := fold_left Z.add zs 0.

(** *** [float(s)] for a string *)

Definition is_digit (c : ascii) : bool :=
  let n := N_of_ascii c in ((48 <=? n) && (n <=? 57))%N.

Definition digit_val (c : ascii) : Z := Z.of_N (N_of_ascii c) - 48.

(** Underscores may only stand between two digits; they are removed before
    the number is read. [prev] is the character before [s]. *)
Fixpoint strip_underscores (prev : ascii) (s : string) : option string :=
  match s with
  | EmptyString => if Ascii.eqb prev "_" then None else Some EmptyString
  | String c s' =>
      if Ascii.eqb c "_" then
        if is_digit prev then strip_underscores c s' else None
      else if Ascii.eqb prev "_" && negb (is_digit c) then None
      else String c <$> strip_underscores c s'
  end.

Definition parse_sign (s : string) : bool * string :=
  match s with
  | String "-" s' => (true, s')
  | String "+" s' => (false, s')
  | _ => (false, s)
  end.

(** Reads the digits at the head of [s]: the number they denote after the
    digits already in [acc], how many were read, and the rest. *)
Fixpoint take_digits (s : string) (acc : Z) (n : Z) : Z * Z * string :=
  match s with
  | EmptyString => (acc, n, s)
  | String c s' =>
      if is_digit c then take_digits s' (10 * acc + digit_val c) (n + 1)
      else (acc, n, s)
  end.

(** A decimal literal [sign digits [. digits] [e sign digits]] with at least
    one digit before the exponent, read as [(negative, m, e)] for the value
    [m * 10 ^ e]. The whole string has to be consumed. *)
Definition parse_decimal (s : string) : option (bool * Z * Z) :=
  let '(neg, s1) := parse_sign s in
  let '(ip, n1, s2) := take_digits s1 0 0 in
  let '(m, n2, s3) :=
    match s2 with
    | String "." s' => take_digits s' ip 0
    | _ => (ip, 0, s2)
    end in
  if n1 + n2 =? 0 then None
  else
    match s3 with
    | EmptyString => Some (neg, m, - n2)
    | String c s4 =>
        if Ascii.eqb c "e" || Ascii.eqb c "E" then
          let '(eneg, s5) := parse_sign s4 in
          let '(ev, n3, s6) := take_digits s5 0 0 in
          if n3 =? 0 then None
          else
            match s6 with
            | EmptyString => Some (neg, m, (if eneg then - ev else ev) - n2)
            | _ => None
            end
        else None
    end.

(** [inf], [infinity] and [nan] in any case, with an optional sign. *)
Definition parse_inf_or_nan (s : string) : option float :=
  let '(neg, s1) := parse_sign s in
  let t := lower s1 in
  if String.eqb t "inf" || String.eqb t "infinity" then Some (S754_infinity neg)
  else if String.eqb t "nan" then Some S754_nan
  else None.

(** The binary64 number nearest to [m * 10 ^ e] (ties to even); a value out
    of range becomes an infinity. *)
Definition float_of_decimal (neg : bool) (m e : Z) : float :=
  match m with
  | Zpos _ =>
      if 0 <=? e then binary_normalize prec emax (cond_Zopp neg (m * 10 ^ e)) 0 false
      else
        let '(q, e', l) := SFdiv_core_binary prec emax m 0 (10 ^ (- e)) 0 in
        binary_round_aux prec emax neg q e' l
  | _ => S754_zero neg
  end.

Definition float_of_str (s : string) : res float :=
  match strip_underscores "000" (strip s) with
  | None => Raise ValueError
  | Some u =>
      match parse_decimal u with
      | Some (neg, m, e) => Ok (float_of_decimal neg m e)
      | None =>
          match parse_inf_or_nan u with
          | Some f => Ok f
          | None => Raise ValueError
          end
      end
  end.

(** ** Records as [csv.DictReader] yields them *)

(** A key of a row: a column name, or [None], under which [DictReader] files
    the surplus fields of a row longer than the header. *)
Inductive key : Type :=
  | KNone
  | KStr (s : string).

#[global] Instance key_eq_dec : EqDecision key.
Proof. solve_decision. Defined.

#[global] Instance key_countable : Countable key :=
  inj_countable'
    (fun k => match k with KNone => None | KStr s => Some s end)
    (fun o => match o with None => KNone | Some s => KStr s end)
    (fun k => match k with KNone => eq_refl | KStr _ => eq_refl end).

(** A value of a row: a field, [None] for a field missing from a row shorter
    than the header, or the list of surplus fields. *)
Inductive value : Type :=
  | VNone
  | VStr (s : string)
  | VList (l : list string).

Abbreviation record := (gmap key value).

(** [d.get(k, default)] *)
Definition get (d : record) (k : key) (default : value) : value :=
  match d !! k with
  | Some v => v
  | None => default
  end.

(** *** [str] of a value *)

Definition hex_digit (n : N) : ascii :=
  if (n <? 10)%N then ascii_of_N (48 + n) else ascii_of_N (87 + n).

(** One character of [repr(s)], inside the quotes [quote]. *)
Definition repr_char (quote : ascii) (c : ascii) : string :=
  let n := N_of_ascii c in
  if Ascii.eqb c quote || Ascii.eqb c "\" then String "\" (String c EmptyString)
  else if Ascii.eqb c "009" then "\t"
  else if Ascii.eqb c "010" then "\n"
  else if Ascii.eqb c "013" then "\r"
  else if ((n <? 32) || (n =? 127))%N then
    String "\" (String "x" (String (hex_digit (n / 16)) (String (hex_digit (n mod 16)) EmptyString)))
  else String c EmptyString.

Fixpoint has_char (c : ascii) (s : string) : bool :=
  match s with
  | EmptyString => false
  | String c' s' => Ascii.eqb c c' || has_char c s'
  end.

Fixpoint repr_chars (quote : ascii) (s : string) : string :=
  match s with
  | EmptyString => EmptyString
  | String c s' => repr_char quote c +:+ repr_chars quote s'
  end.

(** [repr(s)]: single quotes, unless [s] holds a single quote and no double
    quote. *)
Definition repr_str (s : string) : string :=
  let quote : ascii := if has_char "'" s && negb (has_char "034" s) then "034"%char else "'"%char in
  String quote (repr_chars quote s +:+ String quote EmptyString).

Fixpoint join (sep : string) (l : list string) : string :=
  match l with
  | [] => EmptyString
  | [s] => s
  | s :: l' => s +:+ sep +:+ join sep l'
  end.

(** [str(x)] *)
Definition str (x : value) : string :=
  match x with
  | VNone => "None"
  | VStr s => s
  | VList l => "[" +:+ join ", " (map repr_str l) +:+ "]"
  end.

(** [float(x)] *)
Definition float_of (x : value) : res float :=
  match x with
  | VNone => Raise TypeError
  | VStr s => float_of_str s
  | VList _ => Raise TypeError
  end.

Definition _to_float (x : value) : float :=
  try_except (float_of x) nan.

(** ** The world of the demo: a file system and the standard output *)

(** [path_exists] answers [os.path.exists]; [read_rows p] is what opening
    [p] and iterating [csv.DictReader] over it yields: the rows, each as the
    items of its dict in order, or the exception raised on the way. *)
Record filesystem : Type := {
  path_exists : string -> bool;
  read_rows : string -> res (list (list (key * value)))
}.

(** An argument of a call of [print]. *)
Inductive obj : Type :=
  | OStr (s : string)
  | OInt (z : Z)
  | OFloat (f : float)
  | ORecord (d : record).

(** A computation that prints: the calls of [print] it made, each with its
    arguments, and how it ended. *)
Definition io (A : Type) : Type := list (list obj) * res A.

#[global] Instance io_ret : MRet io := fun A (a : A) => ([], Ok a).

#[global] Instance io_bind : MBind io :=
  fun A B (f : A -> io B) (m : io A) =>
    match m with
    | (out, Ok a) => let '(out', r) := f a in (out ++ out', r)
    | (out, Raise e) => (out, Raise e)
    end.

Definition print (args : list obj) : io unit := ([args], Ok tt).

Definition lift {A : Type} (r : res A) : io A := ([], r).

(** [for x in l: body(x)] *)
Fixpoint for_each {A : Type} (l : list A) (body : A -> io unit) : io unit :=
  match l with
  | [] => mret tt
  | x :: l' => _ ← body x; for_each l' body
  end.

(** ** Loading the cities *)

Definition default_candidates : list string :=
  ["./Cities.csv"; "Cities.csv"; "/content/Cities.csv"; "/mnt/data/Cities.csv"].

Definition not_found_message : string :=
  "⚠️ Could not find Cities.csv in any known location. " +:+
  "Put the file next to this script or update the path list inside _load_cities().".

(** The probing loop: [file_path] stays [None] until a candidate exists. *)
Fixpoint probe (fs : filesystem) (csv_path_candidates : list string) : option string :=
  match csv_path_candidates with
  | [] => None
  | p :: rest => if path_exists fs p then Some p else probe fs rest
  end.

(** [k.strip().lower() if isinstance(k, str) else k] *)
Definition norm_key (k : key) : key :=
  match k with
  | KStr s => KStr (lower (strip s))
  | KNone => KNone
  end.

(** [v.strip() if isinstance(v, str) else v] *)
Definition norm_value (v : value) : value :=
  match v with
  | VStr s => VStr (strip s)
  | _ => v
  end.

(** The dict comprehension over [r.items()]: a later item with the same
    normalised key replaces an earlier one. *)
Definition norm (r : list (key * value)) : record :=
  fold_left (fun d '(k, v) => <[norm_key k := norm_value v]> d) r ∅.

Definition _load_cities (fs : filesystem) (csv_path_candidates : option (list string))
    : io (list record) :=
  let candidates :=
    match csv_path_candidates with
    | None => default_candidates
    | Some l => l
    end in
  match probe fs candidates with
  | None | Some EmptyString =>
      _ ← print [OStr not_found_message];
      mret []
  | Some file_path =>
      rows ← lift (read_rows fs file_path);
      mret (map norm rows)
  end.

(** ** The four queries of [main] *)

(** The fold of the average temperature. *)
Definition avg_fold (xs : list value) : res float :=
  match xs with
  | [] => Ok nan
  | _ :: _ =>
      float_truediv_int
        (float_sum (map _to_float xs))
        (Z.max 1 (int_sum (map (fun x => if is_nan (_to_float x) then 0 else 1) xs)))
  end.

Definition germany_condition (d : record) : res bool :=
  Ok (String.eqb (lower (strip (str (get d (KStr "country") (VStr ""))))) "germany").

Definition spain_condition (d : record) : res bool :=
  Ok (String.eqb (lower (strip (str (get d (KStr "country") (VStr ""))))) "spain"
      && float_gt_int (_to_float (get d (KStr "temperature") VNone)) 12).

(** The set comprehension of the distinct countries, one value at a time. *)
Definition country_set (xs : list value) : gset string :=
  fold_left
    (fun acc x => if str_truthy (strip (str x)) then acc ∪ {[lower (strip (str x))]} else acc)
    xs ∅.

Definition unique_fold (xs : list value) : res Z :=
  Ok (Z.of_nat (size (country_set xs))).

Definition avg_temp_query (cities : list record) : res float :=
  aggregate (KStr "temperature") avg_fold cities.

Definition germany_query (cities : list record) : res (list record) :=
  filter germany_condition cities.

Definition spain_query (cities : list record) : res (list record) :=
  filter spain_condition cities.

Definition unique_country_query (cities : list record) : res Z :=
  aggregate (KStr "country") unique_fold cities.

Definition main (fs : filesystem) : io unit :=
  cities ← _load_cities fs None;
  match cities with
  | [] => mret tt
  | _ :: _ =>
      avg_temp ← lift (avg_temp_query cities);
      _ ← print [OStr "Average temperature of all the cities:"; OFloat avg_temp];
      cities_in_germany ← lift (germany_query cities);
      _ ← print [OStr (String "010" "Cities in Germany:")];
      _ ← for_each cities_in_germany (fun c => print [ORecord c]);
      spain_above_12 ← lift (spain_query cities);
      _ ← print [OStr (String "010" "Cities in Spain with temperature > 12°C:")];
      _ ← for_each spain_above_12 (fun c => print [ORecord c]);
      unique_country_count ← lift (unique_country_query cities);
      print [OStr (String "010" "Number of unique countries:"); OInt unique_country_count]
  end.

(** ** Notions the statements use *)

(** The count of the values that convert to a number: the divisor of the
    average, before [max(1, ...)]. *)
Definition numeric_count (xs : list value) : Z :=
  int_sum (map (fun x => if is_nan (_to_float x) then 0 else 1) xs).

(** A record of Spain above 12 degrees: its country field, trimmed and
    lowercased, is [spain], and its temperature field is there, is a number
    and exceeds 12. *)
Definition is_spain_above_12 (d : record) : Prop :=
  (exists c, d !! KStr "country" = Some c /\ lower (strip (str c)) = "spain") /\
  (exists t f, d !! KStr "temperature" = Some t /\ float_of t = Ok f /\
               float_gt_int f 12 = true).

(** A record without a usable temperature: the field is missing, or its
    value does not convert to a number. *)
Definition temperature_unusable (d : record) : Prop :=
  d !! KStr "temperature" = None \/
  exists t e, d !! KStr "temperature" = Some t /\ float_of t = Raise e.

(** ** Sample data *)

(** A record whose fields are all text, as a row of the file is. *)
Definition city (fields : list (string * string)) : record :=
  list_to_map (map (fun '(k, v) => (KStr k, VStr v)) fields).

(** Three cities, the second with a temperature that is not a number. *)
Definition cities_with_abc : list record :=
  [city [("country", "Germany"); ("temperature", "10")];
   city [("country", "Spain"); ("temperature", "abc")];
   city [("country", "Spain"); ("temperature", "20")]].

(** The same cities without the second one. *)
Definition cities_numeric : list record :=
  [city [("country", "Germany"); ("temperature", "10")];
   city [("country", "Spain"); ("temperature", "20")]].

(** Scenario A of the specification. *)
Definition germany_10 : record := city [("country", "Germany"); ("temperature", "10")].
Definition spain_15 : record := city [("country", "Spain"); ("temperature", "15")].
Definition spain_8 : record := city [("country", "spain"); ("temperature", "8")].
Definition scenario_A : list record := [germany_10; spain_15; spain_8].

(** Scenario B: the second city has no temperature. *)
Definition scenario_B : list record :=
  [germany_10; city [("country", " GERMANY ")]].

(** Two records with a country that is there but empty or blank. *)
Definition blank_countries : list record :=
  [city [("country", "")]; city [("temperature", "1")]; city [("country", "  ")]].

(** A file system without any of the candidate files. *)
Definition no_file : filesystem :=
  {| path_exists := fun _ => false;
     read_rows := fun _ => Raise OSError |}.

(** A file system where only the second candidate is there, holding
    [rows]. *)
Definition only_cities_csv (rows : list (list (key * value))) : filesystem :=
  {| path_exists := fun p => String.eqb p "Cities.csv";
     read_rows := fun p => if String.eqb p "Cities.csv" then Ok rows else Raise OSError |}.

(** A record of Germany: its country field is there and, trimmed and
    lowercased, is [germany]. *)
Definition is_germany (d : record) : Prop :=
  exists c, d !! KStr "country" = Some c /\ lower (strip (str c)) = "germany".

(** The country of a value as the queries compare it. *)
Definition country_of (v : value) : string := lower (strip (str v)).

(** [p] is the first of the candidates [l] that exists. *)
Definition first_existing (fs : filesystem) (l : list string) (p : string) : Prop :=
  exists before after,
    l = before ++ p :: after /\
    Forall (fun q => path_exists fs q = false) before /\
    path_exists fs p = true.

(** What [main] prints after the cities are loaded, given the results of
    its four queries. *)
Definition report (avg_temp : float) (cities_in_germany spain_above_12 : list record)
    (unique_country_count : Z) : list (list obj) :=
  [[OStr "Average temperature of all the cities:"; OFloat avg_temp];
   [OStr (String "010" "Cities in Germany:")]]
  ++ map (fun c => [ORecord c]) cities_in_germany
  ++ [[OStr (String "010" "Cities in Spain with temperature > 12°C:")]]
  ++ map (fun c => [ORecord c]) spain_above_12
  ++ [[OStr (String "010" "Number of unique countries:"); OInt unique_country_count]].

(** * Properties *)

(** ** The model on the scenarios of the specification *)

Example float_of_str_examples :
  float_of_str "10" = Ok (S754_finite false 5629499534213120 (-49)) /\
  float_of_str " 1_0.0e0 " = float_of_str "10" /\
  float_of_str "0.1" = Ok (S754_finite false 7205759403792794 (-56)) /\
  float_of_str "-inf" = Ok (S754_infinity true) /\
  float_of_str "NaN" = Ok S754_nan /\
  float_of_str "1e999" = Ok (S754_infinity false) /\
  float_of_str "abc" = Raise ValueError /\
  float_of_str "1e" = Raise ValueError /\
  float_of_str "1__0" = Raise ValueError /\
  float_of_str "" = Raise ValueError.
Proof. repeat split; vm_compute; reflexivity. Qed.

Example scenario_A_results :
  avg_temp_query scenario_A = float_of_str "11.0" /\
  germany_query scenario_A = Ok [germany_10] /\
  spain_query scenario_A = Ok [spain_15] /\
  unique_country_query scenario_A = Ok 2.
Proof. repeat split; vm_compute; reflexivity. Qed.

Example scenario_B_results :
  avg_temp_query scenario_B = float_of_str "10.0" /\
  germany_query scenario_B = Ok scenario_B.
Proof. split; vm_compute; reflexivity. Qed.

Example cities_with_abc_results :
  spain_query cities_with_abc = Ok [city [("country", "Spain"); ("temperature", "20")]] /\
  unique_country_query cities_with_abc = Ok 2.
Proof. split; vm_compute; reflexivity. Qed.

(** ** filter *)

Section FilterFacts.
Context {A : Type}.
Implicit Types (P : A -> bool) (D : list A).

(** With a condition that never raises, the comprehension is the list
    filter of the standard library. *)
Lemma filter_pure P D :
  filter (fun d => Ok (P d)) D = Ok (List.filter P D).
Proof.
  induction D as [|d D IH]; [reflexivity|].
  cbn. rewrite IH. cbn. destruct (P d); reflexivity.
Qed.

Lemma list_filter_sublist P D : sublist (List.filter P D) D.
Proof.
  induction D as [|d D IH]; cbn; [constructor|].
  destruct (P d); [apply sublist_skip | apply sublist_cons]; exact IH.
Qed.

Lemma list_filter_elem_of P D d :
  d ∈ List.filter P D <-> d ∈ D /\ P d = true.
Proof. rewrite !list_elem_of_In. apply filter_In. Qed.

(** The records kept and the records dropped are, together, the dataset. *)
Lemma list_filter_partition P D :
  D ≡ₚ List.filter P D ++ List.filter (fun d => negb (P d)) D.
Proof.
  induction D as [|d D IH]; cbn; [reflexivity|].
  destruct (P d); cbn.
  - by f_equiv.
  - rewrite <- Permutation_middle. by f_equiv.
Qed.

(** An exception of the condition is not handled: it ends the call at the
    first record that raises. *)
Lemma filter_raise (condition : A -> res bool) D1 d D2 e :
  Forall (fun x => exists b, condition x = Ok b) D1 ->
  condition d = Raise e ->
  filter condition (D1 ++ d :: D2) = Raise e.
Proof.
  intros HD1 Hd. induction HD1 as [|x D1 [b Hb] _ IH]; cbn.
  - by rewrite Hd.
  - rewrite Hb. cbn. by rewrite IH.
Qed.

(** C1: for every predicate [P] and dataset [D], [filter(P, D)] returns
    the records of [D] that satisfy [P] and only those, as a subsequence
    of [D] in the original order, each as often as it occurs in [D]
    (kept and dropped records together are a permutation of [D]), and
    its length is at most the length of [D]. *)
Theorem filter_spec P D :
  exists kept,
    filter (fun d => Ok (P d)) D = Ok kept /\
    sublist kept D /\
    (forall d, d ∈ kept <-> d ∈ D /\ P d = true) /\
    D ≡ₚ kept ++ List.filter (fun d => negb (P d)) D /\
    (length kept <= length D)%nat.
Proof.
  exists (List.filter P D). split; [apply filter_pure|].
  split; [apply list_filter_sublist|].
  split; [intros d; apply list_filter_elem_of|].
  split; [apply list_filter_partition|].
  apply sublist_length, list_filter_sublist.
Qed.

(** C8: with the constant-true predicate [filter] returns the dataset
    itself, with the constant-false predicate the empty list. *)
Theorem filter_const D :
  filter (fun _ => Ok true) D = Ok D /\
  filter (fun _ => Ok false) D = Ok [].
Proof.
  split; induction D as [|d D IH]; cbn; try reflexivity;
    rewrite IH; reflexivity.
Qed.
End FilterFacts.

(** ** aggregate *)

Section AggregateFacts.
Context {K : Type} `{Countable K} {V R : Type}.
Implicit Types (k : K) (D : list (gmap K V)) (F : list V -> res R).

(** The loop never raises [KeyError]: the lookup is guarded by the
    membership test. It appends, in order, the value of every record that
    has the key. *)
Lemma aggregate_loop_spec k vals D :
  aggregate_loop k vals D = Ok (vals ++ omap (fun d => d !! k) D).
Proof.
  revert vals. induction D as [|d D IH]; intros vals; cbn.
  - by rewrite app_nil_r.
  - unfold contains, getitem. destruct (d !! k) as [v|] eqn:Hd; cbn.
    + rewrite IH. by rewrite <- app_assoc.
    + apply IH.
Qed.

Lemma aggregate_omap k F D :
  aggregate k F D = F (omap (fun d => d !! k) D).
Proof. unfold aggregate. rewrite aggregate_loop_spec. reflexivity. Qed.

Lemma omap_lookup_Forall2 k D :
  Forall2 (fun d v => d !! k = Some v)
    (List.filter (contains k) D) (omap (fun d => d !! k) D).
Proof.
  induction D as [|d D IH]; cbn; [constructor|].
  unfold contains at 1. destruct (d !! k) as [v|] eqn:Hd; cbn.
  - by constructor.
  - exact IH.
Qed.

(** C2: [aggregate(K, F, D)] returns [F] applied to the intermediate
    sequence [vals], which holds, in dataset order, the value [d[K]] of
    each record [d] of [D] that has the key [K] and nothing for the
    others; whether the key is present decides, whatever the value is. *)
Theorem aggregate_spec k F D :
  exists vals,
    aggregate k F D = F vals /\
    Forall2 (fun d v => d !! k = Some v)
      (List.filter (fun d => bool_decide (is_Some (d !! k))) D) vals /\
    (forall d v, d ∈ D -> d !! k = Some v -> v ∈ vals) /\
    length vals = length (List.filter (fun d => bool_decide (is_Some (d !! k))) D).
Proof.
  exists (omap (fun d => d !! k) D).
  split; [apply aggregate_omap|].
  split; [apply omap_lookup_Forall2|].
  split.
  - intros d v Hd Hv. apply list_elem_of_omap. eauto.
  - symmetry. eapply Forall2_length, omap_lookup_Forall2.
Qed.
End AggregateFacts.

(** A record counts as soon as it has the key, also with an empty text as
    the value; the record without the key leaves no trace. *)
Lemma aggregate_spec_witness :
  exists vals,
    aggregate (KStr "country") (fun xs => Ok xs) blank_countries = Ok vals /\
    VStr "" ∈ vals /\ length vals = 2%nat.
Proof.
  destruct (aggregate_spec (KStr "country") (fun xs : list value => Ok xs) blank_countries)
    as (vals & Hagg & _ & Hin & Hlen).
  exists vals. split; [exact Hagg|]. split; [|exact Hlen].
  apply (Hin (city [("country", "")])); [left | reflexivity].
Defined.

(** ** Rounding to binary64 *)

(** Facts about the rounding functions of the standard library's
    specification of binary64, for a positive mantissa. *)

Lemma digits2_pos_bounds p :
  2 ^ (Zpos (digits2_pos p) - 1) <= Zpos p < 2 ^ Zpos (digits2_pos p).
Proof.
  induction p as [p IH|p IH|]; cbn [digits2_pos].
  - rewrite Pos2Z.inj_succ, Pos2Z.inj_xI.
    replace (Z.succ (Zpos (digits2_pos p)) - 1) with (Z.succ (Zpos (digits2_pos p) - 1)) by lia.
    rewrite !Z.pow_succ_r by lia. revert IH. generalize (2 ^ (Z.pos (digits2_pos p) - 1)) (2 ^ Z.pos (digits2_pos p)). lia.
  - rewrite Pos2Z.inj_succ, (Pos2Z.inj_xO p).
    replace (Z.succ (Zpos (digits2_pos p)) - 1) with (Z.succ (Zpos (digits2_pos p) - 1)) by lia.
    rewrite !Z.pow_succ_r by lia. revert IH. generalize (2 ^ (Z.pos (digits2_pos p) - 1)) (2 ^ Z.pos (digits2_pos p)). lia.
  - cbn. lia.
Qed.

Lemma Zdigits2_le m k :
  0 < m < 2 ^ k -> 0 < Zdigits2 m <= k.
Proof.
  intros [Hm Hk]. destruct m as [|p|p]; try lia. cbn.
  split; [lia|].
  destruct (digits2_pos_bounds p) as [Hlo _].
  destruct (Z.le_gt_cases (Zpos (digits2_pos p)) k) as [|Hgt]; [assumption|].
  assert (2 ^ k <= 2 ^ (Zpos (digits2_pos p) - 1)) by (apply Z.pow_le_mono_r; lia).
  lia.
Qed.

Lemma shr_1_m r : 0 <= shr_m r -> shr_m (shr_1 r) = shr_m r / 2.
Proof.
  destruct r as [m rb sb]. cbn. intros Hm.
  destruct m as [|[p|p|]|p]; cbn [shr_m]; try lia; try reflexivity.
  - rewrite Pos2Z.inj_xI. apply Z.div_unique with 1; lia.
  - rewrite (Pos2Z.inj_xO p). apply Z.div_unique with 0; lia.
Qed.

Lemma iter_shr_1_m n r :
  0 <= shr_m r -> shr_m (SpecFloat.iter_pos shr_1 n r) = shr_m r / 2 ^ Zpos n.
Proof.
  revert r. induction n as [n IH|n IH|]; intros r Hr; cbn [SpecFloat.iter_pos].
  - assert (0 <= shr_m (shr_1 r)) by (rewrite shr_1_m by assumption; apply Z.div_pos; lia).
    assert (0 <= shr_m (SpecFloat.iter_pos shr_1 n (shr_1 r))) by (rewrite IH by assumption; apply Z.div_pos; lia).
    rewrite !IH, shr_1_m by assumption.
    rewrite !Z.div_div by lia. f_equal.
    rewrite Pos2Z.inj_xI. rewrite Z.pow_add_r, Z.pow_mul_r by lia.
    change (2 ^ 2) with 4. change (2 ^ 1) with 2. 
    replace (4 ^ Zpos n) with (2 ^ Zpos n * 2 ^ Zpos n). lia.
    rewrite <- Z.pow_mul_l. reflexivity.
  - assert (0 <= shr_m (SpecFloat.iter_pos shr_1 n r)) by (rewrite IH by assumption; apply Z.div_pos; lia).
    rewrite !IH by assumption.
    rewrite !Z.div_div by lia. f_equal.
    rewrite (Pos2Z.inj_xO n). rewrite <- Z.pow_add_r by lia. f_equal. lia.
  - rewrite shr_1_m by assumption. reflexivity.
Qed.

Lemma shr_record_of_loc_m m l : shr_m (shr_record_of_loc m l) = m.
Proof. destruct l as [|[]]; reflexivity. Qed.

(** first component of shr_fexp *)
Lemma shr_fexp_pos m e l :
  0 < m -> - 1074 <= e ->
  0 < shr_m (fst (shr_fexp prec emax m e l)) < 2 ^ 53 /\
  e <= snd (shr_fexp prec emax m e l) <= e + Z.max 0 (Zdigits2 m - 53).
Proof.
  intros Hm He. unfold shr_fexp, shr, fexp, emin, prec, emax.
  destruct m as [|p|p]; try lia. cbn [Zdigits2].
  pose proof (digits2_pos_bounds p) as [Hlo Hhi].
  set (d := Zpos (digits2_pos p)) in *.
  destruct (Z.max (d + e - 53) (3 - 1024 - 53) - e) as [|n|n] eqn:Hn; cbn [fst snd].
  - rewrite shr_record_of_loc_m. split; [|lia]. split; [lia|].
    assert (d <= 53) by lia.
    assert (2 ^ d <= 2 ^ 53) by (apply Z.pow_le_mono_r; lia). lia.
  - rewrite iter_shr_1_m by (rewrite shr_record_of_loc_m; lia).
    rewrite shr_record_of_loc_m.
    assert (Zpos n = d - 53) as -> by lia.
    split; [|lia].
    assert (2 ^ d = 2 ^ (d - 53) * 2 ^ 53) as Hd by (rewrite <- Z.pow_add_r by lia; f_equal; lia).
    assert (2 ^ (d - 1) = 2 ^ (d - 53) * 2 ^ 52) as Hd1 by (rewrite <- Z.pow_add_r by lia; f_equal; lia).
    assert (0 < 2 ^ (d - 53)) by (apply Z.pow_pos_nonneg; lia).
    split.
    + apply Z.div_str_pos. split; [assumption|].
      rewrite Hd1 in Hlo. change (2 ^ 52) with 4503599627370496 in Hlo. lia.
    + apply Z.div_lt_upper_bound; [assumption|]. lia.
  - rewrite shr_record_of_loc_m. split; [|lia]. split; [lia|].
    assert (d <= 53) by lia.
    assert (2 ^ d <= 2 ^ 53) by (apply Z.pow_le_mono_r; lia). lia.
Qed.

Lemma round_nearest_even_bounds m l :
  m <= round_nearest_even m l <= m + 1.
Proof. destruct l as [|[]]; cbn; try lia. destruct (Z.even m); lia. Qed.

(** Rounding a positive mantissa at an exponent of at least [emin] gives a
    finite number, or an infinity when the exponent ends up too large;
    never a zero. *)
Lemma binary_round_aux_pos s m e l :
  0 < m -> - 1074 <= e ->
  exists m' e',
    e' <= e + Z.max 0 (Zdigits2 m - 53) + 1 /\
    binary_round_aux prec emax s m e l =
      if e' <=? 971 then S754_finite s m' e' else S754_infinity s.
Proof.
  intros Hm He. unfold binary_round_aux.
  pose proof (shr_fexp_pos m e l Hm He) as [Hm1 He1].
  destruct (shr_fexp prec emax m e l) as [mrs1 e1]. cbn [fst snd] in *.
  pose proof (round_nearest_even_bounds (shr_m mrs1) (loc_of_shr_record mrs1)) as Hr.
  set (m1 := round_nearest_even (shr_m mrs1) (loc_of_shr_record mrs1)) in *.
  assert (0 < m1 < 2 ^ 54) as Hm1' by (change (2 ^ 54) with (2 * 2 ^ 53); lia).
  pose proof (Zdigits2_le m1 54 Hm1') as Hd1.
  pose proof (shr_fexp_pos m1 e1 loc_Exact ltac:(lia) ltac:(lia)) as [Hm2 He2].
  destruct (shr_fexp prec emax m1 e1 loc_Exact) as [mrs2 e2]. cbn [fst snd] in *.
  destruct (shr_m mrs2) as [|p|p]; try lia.
  exists p, e2. split; [lia|reflexivity].
Qed.

Lemma iter_xO_Z p d : Zpos (Pos.iter xO p d) = Zpos p * 2 ^ Zpos d.
Proof.
  induction d as [|d IH] using Pos.peano_ind.
  - cbn. lia.
  - rewrite Pos.iter_succ, Pos2Z.inj_succ, Z.pow_succ_r by lia.
    rewrite (Pos2Z.inj_xO (Pos.iter xO p d)), IH. lia.
Qed.

Lemma binary_normalize_pos n :
  0 < n ->
  exists m e,
    e <= Z.max 0 (Zdigits2 n - 53) + 1 /\
    binary_normalize prec emax n 0 false =
      if e <=? 971 then S754_finite false m e else S754_infinity false.
Proof.
  intros Hn. destruct n as [|p|p]; try lia.
  unfold binary_normalize, binary_round, shl_align.
  pose proof (digits2_pos_bounds p) as [Hlo Hhi].
  cbn [Zdigits2].
  set (D := Zpos (digits2_pos p)) in *.
  assert (0 < D) by (unfold D; lia).
  assert (fexp prec emax (D + 0) = Z.max (D - 53) (- 1074)) as ->
    by (unfold fexp, emin, prec, emax; f_equal; lia).
  destruct (Z.max (D - 53) (- 1074) - 0) as [|d|d] eqn:Hd.
  - destruct (binary_round_aux_pos false (Zpos p) 0 loc_Exact) as (m & e & He & ->);
      try lia.
    exists m, e. split; [|reflexivity]. cbn [Zdigits2] in He. fold D in He. lia.
  - destruct (binary_round_aux_pos false (Zpos p) 0 loc_Exact) as (m & e & He & ->);
      try lia.
    exists m, e. split; [|reflexivity]. cbn [Zdigits2] in He. fold D in He. lia.
  - assert (0 < Zpos (Pos.iter xO p d) < 2 ^ 53) as Hb.
    { rewrite iter_xO_Z. split; [lia|].
      assert (2 ^ 53 = 2 ^ D * 2 ^ Zpos d) as ->
        by (rewrite <- Z.pow_add_r by lia; f_equal; lia).
      apply Z.mul_lt_mono_pos_r; [apply Z.pow_pos_nonneg|]; lia. }
    pose proof (Zdigits2_le _ _ Hb).
    destruct (binary_round_aux_pos false (Zpos (Pos.iter xO p d))
                (Z.max (D - 53) (- 1074)) loc_Exact) as (m & e & He & ->); try lia.
    exists m, e. split; [lia|reflexivity].
Qed.

(** ** Floats of the demo *)

Lemma fadd_nan_l f : fadd S754_nan f = S754_nan.
Proof. reflexivity. Qed.

Lemma fadd_nan_r f : fadd f S754_nan = S754_nan.
Proof. destruct f; reflexivity. Qed.

Lemma fdiv_nan_l f : fdiv S754_nan f = S754_nan.
Proof. reflexivity. Qed.

Lemma fold_fadd_nan fs : fold_left fadd fs S754_nan = S754_nan.
Proof. induction fs as [|f fs IH]; cbn; [reflexivity|exact IH]. Qed.

(** One NaN among the terms makes the sum a NaN. *)
Lemma float_sum_nan fs : S754_nan ∈ fs -> float_sum fs = S754_nan.
Proof.
  unfold float_sum. generalize (S754_zero false).
  induction fs as [|f fs IH]; intros acc Hin.
  - by apply elem_of_nil in Hin.
  - cbn. apply elem_of_cons in Hin as [<-|Hin].
    + rewrite fadd_nan_r. apply fold_fadd_nan.
    + by apply IH.
Qed.

Lemma int_sum_indicator {A : Type} (g : A -> bool) (xs : list A) :
  0 <= int_sum (map (fun x => if g x then 0 else 1) xs) <= Z.of_nat (length xs).
Proof.
  unfold int_sum.
  assert (forall acc, acc <= fold_left Z.add (map (fun x => if g x then 0 else 1) xs) acc
                      <= acc + Z.of_nat (length xs)) as Hacc.
  { induction xs as [|x xs IH]; intros acc; cbn [map fold_left length]; [lia|].
    specialize (IH (acc + (if g x then 0 else 1))). destruct (g x); lia. }
  specialize (Hacc 0). lia.
Qed.

(** A positive int converts to a finite, non-zero float, unless it is too
    large, which raises [OverflowError]. *)
Lemma float_of_int_pos_cases n :
  0 < n ->
  (exists m e, float_of_int n = Ok (S754_finite false m e)) \/
  float_of_int n = Raise OverflowError.
Proof.
  intros Hn. unfold float_of_int.
  destruct (binary_normalize_pos n Hn) as (m & e & _ & ->).
  destruct (e <=? 971); eauto.
Qed.

Lemma float_of_int_pos n :
  0 < n < 2 ^ 1023 ->
  exists m e, float_of_int n = Ok (S754_finite false m e).
Proof.
  intros [Hn Hlt]. unfold float_of_int.
  destruct (binary_normalize_pos n Hn) as (m & e & He & ->).
  pose proof (Zdigits2_le n 1023 ltac:(lia)).
  rewrite Zle_imp_le_bool by lia. eauto.
Qed.

Lemma float_truediv_int_pos a n :
  0 < n < 2 ^ 1023 ->
  exists b, float_of_int n = Ok b /\ float_truediv_int a n = Ok (fdiv a b).
Proof.
  intros Hn. destruct (float_of_int_pos n Hn) as (m & e & Hb).
  exists (S754_finite false m e). split; [exact Hb|].
  unfold float_truediv_int. rewrite Hb. reflexivity.
Qed.

Lemma float_truediv_int_no_zero_division a n :
  0 < n -> float_truediv_int a n <> Raise ZeroDivisionError.
Proof.
  intros Hn. unfold float_truediv_int.
  destruct (float_of_int_pos_cases n Hn) as [(m & e & ->)| ->]; discriminate.
Qed.

(** ** _to_float *)


Lemma _to_float_raise x e : float_of x = Raise e -> _to_float x = S754_nan.
Proof. unfold _to_float. intros ->. reflexivity. Qed.

(** ** The average temperature *)

Lemma numeric_count_bounds xs : 0 <= numeric_count xs <= Z.of_nat (length xs).
Proof. apply int_sum_indicator. Qed.

(** The fold on a non-empty sequence: the sum of all converted values over
    the count of those that are not NaN, or 1. *)
Lemma avg_fold_nonempty xs :
  xs <> [] -> Z.of_nat (length xs) < 2 ^ 1023 ->
  exists b,
    float_of_int (Z.max 1 (numeric_count xs)) = Ok b /\
    avg_fold xs = Ok (fdiv (float_sum (map _to_float xs)) b).
Proof.
  intros Hne Hlen. pose proof (numeric_count_bounds xs) as Hc.
  destruct xs as [|x xs]; [done|].
  unfold avg_fold. apply float_truediv_int_pos. fold (numeric_count (x :: xs)). lia.
Qed.

(** A value that does not convert is not left out of the sum: it makes the
    whole average a NaN. *)
Lemma avg_fold_poisoned xs x :
  x ∈ xs -> is_nan (_to_float x) = true -> Z.of_nat (length xs) < 2 ^ 1023 ->
  avg_fold xs = Ok S754_nan.
Proof.
  intros Hin Hnan Hlen.
  destruct (avg_fold_nonempty xs) as (b & _ & ->); [by intros ->; inversion Hin|done|].
  rewrite float_sum_nan; [reflexivity|].
  apply list_elem_of_fmap. exists x. split; [|exact Hin].
  destruct (_to_float x); done.
Qed.

(** C10: the fold of the average never divides by zero. The divisor is
    [max(1, count)], which is at least 1 whatever the values are, so the
    fold never raises [ZeroDivisionError]; on every sequence a Python list
    can hold (fewer than 2^1023 values) it returns a float. *)
Theorem avg_fold_no_zero_division (xs : list value) :
  1 <= Z.max 1 (numeric_count xs) /\
  avg_fold xs <> Raise ZeroDivisionError /\
  (Z.of_nat (length xs) < 2 ^ 1023 -> exists f, avg_fold xs = Ok f).
Proof.
  split; [lia|]. split.
  - destruct xs as [|x xs]; [discriminate|].
    unfold avg_fold. apply float_truediv_int_no_zero_division. lia.
  - intros Hlen. destruct xs as [|x xs]; [by exists nan|].
    destruct (avg_fold_nonempty (x :: xs)) as (b & _ & ->); eauto.
Qed.

Lemma avg_fold_no_zero_division_witness :
  exists f, avg_fold [VStr "abc"; VNone; VStr ""] = Ok f.
Proof.
  apply (avg_fold_no_zero_division [VStr "abc"; VNone; VStr ""]).
  vm_compute. reflexivity.
Defined.

(** C3, at the failing input: the three cities of [cities_with_abc] have the
    temperatures 10, abc and 20. The average the program computes is NaN,
    not 15.0, the average of the two numeric values, which is what it
    computes once the second city is removed. *)
Theorem avg_temp_abc :
  avg_temp_query cities_with_abc = Ok nan /\
  avg_temp_query cities_numeric = float_of_str "15.0".
Proof. split; vm_compute; reflexivity. Qed.

(** ** Cities in Spain above 12 degrees *)

Lemma spain_condition_iff (d : record) :
  spain_condition d = Ok true <-> is_spain_above_12 d.
Proof.
  unfold spain_condition, is_spain_above_12, get, _to_float.
  split.
  - intros [= Hb]. apply andb_true_iff in Hb as [Hc Ht].
    apply String.eqb_eq in Hc. split.
    + destruct (d !! KStr "country") as [c|]; [eauto|discriminate].
    + destruct (d !! KStr "temperature") as [t|]; [|discriminate].
      destruct (float_of t) as [f|e] eqn:Hf; [eauto|discriminate].
  - intros [(c & -> & Hc) (t & f & -> & Hf & Hgt)].
    rewrite Hf. cbn [try_except]. rewrite Hgt, Hc. reflexivity.
Qed.

Lemma spain_condition_unusable (d : record) :
  temperature_unusable d -> spain_condition d = Ok false.
Proof.
  unfold spain_condition, get, _to_float.
  intros [-> | (t & e & -> & ->)]; cbn; by rewrite andb_false_r.
Qed.



(** ** Distinct countries *)

Lemma lower_empty (s : string) : lower s = "" <-> s = "".
Proof. destruct s; cbn; split; intros; (done || discriminate). Qed.

Lemma str_truthy_iff (s : string) : str_truthy s = true <-> s <> "".
Proof. destruct s; cbn; split; intros; (done || discriminate). Qed.

Lemma elem_of_country_fold (xs : list value) (acc : gset string) (s : string) :
  s ∈ fold_left
        (fun acc x => if str_truthy (strip (str x)) then acc ∪ {[lower (strip (str x))]} else acc)
        xs acc
  <-> s ∈ acc \/ exists x, x ∈ xs /\ strip (str x) <> "" /\ s = lower (strip (str x)).
Proof.
  revert acc. induction xs as [|x xs IH]; intros acc; cbn [fold_left].
  - split; [by left|]. intros [?|(x & Hx & _)]; [done|]. by apply elem_of_nil in Hx.
  - rewrite IH. destruct (str_truthy (strip (str x))) eqn:Hx.
    + apply str_truthy_iff in Hx. rewrite elem_of_union, elem_of_singleton.
      split.
      * intros [[?| ->]|(y & Hy & ?)]; [by left|right..].
        -- exists x. split; [left|done].
        -- exists y. split; [by right|done].
      * intros [?|(y & Hy & Hne & ->)]; [by left; left|].
        apply elem_of_cons in Hy as [->|Hy]; [by left; right|].
        right. eauto.
    + assert (strip (str x) = "") as Hempty.
      { destruct (strip (str x)); [done|discriminate]. }
      split.
      * intros [?|(y & Hy & ?)]; [by left|]. right. exists y. split; [by right|done].
      * intros [?|(y & Hy & Hne & ->)]; [by left|].
        apply elem_of_cons in Hy as [->|Hy]; [done|]. right. eauto.
Qed.

Lemma elem_of_country_set (xs : list value) (s : string) :
  s ∈ country_set xs <-> exists x, x ∈ xs /\ strip (str x) <> "" /\ s = lower (strip (str x)).
Proof.
  unfold country_set. rewrite elem_of_country_fold.
  split; [intros [Hin|Hx]; [by apply not_elem_of_empty in Hin|exact Hx] | by right].
Qed.


(** ** Loading and the missing file *)

Lemma probe_none (fs : filesystem) (candidates : list string) :
  Forall (fun p => path_exists fs p = false) candidates ->
  probe fs candidates = None.
Proof.
  induction 1 as [|p rest Hp _ IH]; cbn; [reflexivity|].
  by rewrite Hp.
Qed.

(** The probing loop stops at the first candidate that exists. *)
Lemma probe_first (fs : filesystem) (before : list string) (p : string) (after : list string) :
  Forall (fun q => path_exists fs q = false) before ->
  path_exists fs p = true ->
  probe fs (before ++ p :: after) = Some p.
Proof.
  intros Hbefore Hp. induction Hbefore as [|q rest Hq _ IH]; cbn.
  - by rewrite Hp.
  - by rewrite Hq.
Qed.

(** C6: when none of the candidate paths exists, [main] prints the one
    line that says so and returns: nothing else is printed, no file is
    read and no exception is raised. Otherwise [_load_cities] reads the
    first candidate, in the order of the list, that exists. *)
Theorem main_unavailable (fs : filesystem) :
  (Forall (fun p => path_exists fs p = false) default_candidates ->
   main fs = ([[OStr not_found_message]], Ok tt)) /\
  (forall before p after,
     default_candidates = before ++ p :: after ->
     Forall (fun q => path_exists fs q = false) before ->
     path_exists fs p = true ->
     _load_cities fs None = lift (rows ← read_rows fs p; Ok (map norm rows))).
Proof.
  split.
  - intros Hnone. unfold main, _load_cities.
    rewrite (probe_none fs default_candidates Hnone). reflexivity.
  - intros before p after Hsplit Hbefore Hp. unfold _load_cities.
    rewrite Hsplit, (probe_first fs before p after Hbefore Hp).
    assert (p ∈ default_candidates) as Hin
      by (rewrite Hsplit; apply elem_of_app; right; left).
    unfold default_candidates in Hin.
    repeat (apply elem_of_cons in Hin as [-> | Hin]);
      [destruct (read_rows fs _); reflexivity.. | by apply elem_of_nil in Hin].
Qed.

Lemma main_unavailable_witness :
  main no_file = ([[OStr not_found_message]], Ok tt) /\
  _load_cities (only_cities_csv []) None =
    lift (rows ← read_rows (only_cities_csv []) "Cities.csv"; Ok (map norm rows)).
Proof.
  split.
  - apply (main_unavailable no_file). repeat constructor.
  - apply (proj2 (main_unavailable (only_cities_csv [])) ["./Cities.csv"] "Cities.csv"
             ["/content/Cities.csv"; "/mnt/data/Cities.csv"]).
    + reflexivity.
    + repeat constructor.
    + reflexivity.
Defined.

(** ** The empty dataset *)

(** C7: on the empty dataset each of the four queries has a result and
    none raises: the average is NaN, the value the fold gives to an empty
    sequence, the two selections are empty and the count of countries is 0.
    [main] itself, given a file without rows, returns before it runs a
    query: it prints no result and raises nothing. *)
Theorem empty_dataset :
  avg_temp_query [] = Ok nan /\
  germany_query [] = Ok [] /\
  spain_query [] = Ok [] /\
  unique_country_query [] = Ok 0 /\
  forall path_exists : string -> bool,
    main {| path_exists := path_exists; read_rows := fun _ => Ok [] |} =
      (if existsb path_exists default_candidates then []
       else [[OStr not_found_message]],
       Ok tt).
Proof.
  repeat split.
  intros pe. unfold main, _load_cities, default_candidates. cbn.
  destruct (pe "./Cities.csv"); [reflexivity|].
  destruct (pe "Cities.csv"); [reflexivity|].
  destruct (pe "/content/Cities.csv"); [reflexivity|].
  destruct (pe "/mnt/data/Cities.csv"); reflexivity.
Qed.

(** * Further properties of the code *)

(** ** filter: exceptions and composition *)

Section FilterAlgebra.
Context {A : Type}.
Implicit Types (condition : A -> res bool) (D : list A).

Lemma filter_cons_ok condition d D b :
  condition d = Ok b ->
  filter condition (d :: D) =
    kept ← filter condition D; Ok (if b then d :: kept else kept).
Proof. intros Hd. cbn. rewrite Hd. reflexivity. Qed.

(** X1: [filter] raises [e] exactly when the condition raises [e] on some
    record and returned normally on every record before it: the first
    exception of the condition is the outcome of the call, and [filter]
    raises nothing of its own. *)
Theorem filter_raise_iff condition D (e : exn) :
  filter condition D = Raise e <->
  exists D1 d D2,
    D = D1 ++ d :: D2 /\
    Forall (fun x => exists b, condition x = Ok b) D1 /\
    condition d = Raise e.
Proof.
  split.
  - induction D as [|d D IH]; [discriminate|].
    destruct (condition d) as [b|e'] eqn:Hd.
    + rewrite (filter_cons_ok _ _ _ _ Hd).
      destruct (filter condition D) as [kept|e''] eqn:HD; [discriminate|].
      intros [= ->]. destruct (IH eq_refl) as (D1 & x & D2 & -> & HD1 & Hx).
      exists (d :: D1), x, D2. split; [reflexivity|]. split; [|exact Hx].
      constructor; eauto.
    + cbn. rewrite Hd. intros [= ->].
      exists [], d, D. split; [reflexivity|]. split; [constructor|exact Hd].
  - intros (D1 & d & D2 & -> & HD1 & Hd).
    induction HD1 as [|x D1 [b Hb] _ IH]; cbn.
    + by rewrite Hd.
    + rewrite Hb. cbn. by rewrite IH.
Qed.

(** X2: filtering a concatenation is filtering the two parts one after the
    other and concatenating what is kept; an exception in the first part
    wins over one in the second. *)
Theorem filter_app condition D1 D2 :
  filter condition (D1 ++ D2) =
    kept1 ← filter condition D1;
    kept2 ← filter condition D2;
    Ok (kept1 ++ kept2).
Proof.
  induction D1 as [|d D1 IH].
  - cbn. destruct (filter condition D2); reflexivity.
  - cbn [app]. destruct (condition d) as [b|e] eqn:Hd.
    + rewrite !(filter_cons_ok _ _ _ _ Hd), IH.
      destruct (filter condition D1) as [kept1|]; [|reflexivity]. cbn.
      destruct (filter condition D2) as [kept2|]; [|reflexivity]. cbn.
      destruct b; reflexivity.
    + cbn. rewrite Hd. reflexivity.
Qed.

(** X3: filtering the result of a first filter calls the second condition
    only on the records the first one kept: the two calls together are one
    call with the conjunction, in which the second condition is not
    evaluated on a record the first rejects. *)
Theorem filter_filter (Q : A -> bool) condition D :
  (kept ← filter (fun d => Ok (Q d)) D; filter condition kept) =
  filter (fun d => if Q d then condition d else Ok false) D.
Proof.
  rewrite filter_pure. cbn [mbind res_bind].
  induction D as [|d D IH]; [reflexivity|].
  cbn [List.filter]. destruct (Q d) eqn:HQ.
  - cbn. rewrite HQ. destruct (condition d); [|reflexivity]. cbn.
    rewrite IH. reflexivity.
  - rewrite IH. cbn. rewrite HQ. cbn.
    destruct (filter _ D); reflexivity.
Qed.
End FilterAlgebra.

(** ** aggregate: records without the key, concatenation *)

Section AggregateAlgebra.
Context {K : Type} `{Countable K} {V R : Type}.
Implicit Types (k : K) (D : list (gmap K V)) (F : list V -> res R).

Lemma omap_lookup_filter_contains k D :
  omap (fun d => d !! k) (List.filter (contains k) D) = omap (fun d => d !! k) D.
Proof.
  induction D as [|d D IH]; [reflexivity|].
  cbn. unfold contains at 1. destruct (d !! k) as [v|] eqn:Hd; cbn.
  - rewrite Hd. by f_equal.
  - exact IH.
Qed.

(** X4: the records that lack the key play no part: [aggregate] on a
    dataset gives what it gives on the records of the dataset that have
    the key, whatever the fold function is. *)
Theorem aggregate_ignores_absent k F D :
  aggregate k F D = aggregate k F (List.filter (fun d => bool_decide (is_Some (d !! k))) D).
Proof.
  rewrite !aggregate_omap. f_equal. symmetry. apply omap_lookup_filter_contains.
Qed.
End AggregateAlgebra.

(** X5: the values extracted from a concatenation of two datasets are the
    values of the first followed by the values of the second. *)
Theorem aggregate_app {K : Type} `{Countable K} {V : Type}
    (k : K) (D1 D2 : list (gmap K V)) :
  aggregate k (fun xs => Ok xs) (D1 ++ D2) =
    xs ← aggregate k (fun xs => Ok xs) D1;
    ys ← aggregate k (fun ys => Ok ys) D2;
    Ok (xs ++ ys).
Proof.
  rewrite !aggregate_omap. cbn. by rewrite omap_app.
Qed.

(** ** Normalisation on load *)

Lemma is_space_lower_char c : is_space (lower_char c) = is_space c.
Proof. destruct c as [[] [] [] [] [] [] [] []]; reflexivity. Qed.

Lemma lower_char_idem c : lower_char (lower_char c) = lower_char c.
Proof. destruct c as [[] [] [] [] [] [] [] []]; reflexivity. Qed.

Lemma lower_idem s : lower (lower s) = lower s.
Proof. induction s as [|c s IH]; cbn; [reflexivity|]. by rewrite lower_char_idem, IH. Qed.

Lemma lstrip_lower s : lstrip (lower s) = lower (lstrip s).
Proof.
  induction s as [|c s IH]; cbn; [reflexivity|].
  rewrite is_space_lower_char. destruct (is_space c); [exact IH|reflexivity].
Qed.

Lemma rstrip_lower s : rstrip (lower s) = lower (rstrip s).
Proof.
  induction s as [|c s IH]; cbn; [reflexivity|].
  rewrite IH, is_space_lower_char.
  destruct (rstrip s); cbn; [destruct (is_space c)|]; reflexivity.
Qed.

Lemma strip_lower s : strip (lower s) = lower (strip s).
Proof. unfold strip. by rewrite lstrip_lower, rstrip_lower. Qed.

Lemma rstrip_idem s : rstrip (rstrip s) = rstrip s.
Proof.
  induction s as [|c s IH]; cbn; [reflexivity|].
  destruct (rstrip s) as [|c' t] eqn:Hs.
  - destruct (is_space c) eqn:Hc; cbn; [reflexivity|]. by rewrite Hc.
  - cbn [rstrip]. cbn [rstrip] in IH. rewrite IH. reflexivity.
Qed.

Lemma lstrip_head s :
  match lstrip s with
  | EmptyString => True
  | String c _ => is_space c = false
  end.
Proof.
  induction s as [|c s IH]; cbn; [exact I|].
  destruct (is_space c) eqn:Hc; [exact IH|exact Hc].
Qed.

Lemma lstrip_rstrip_head c s :
  is_space c = false -> lstrip (rstrip (String c s)) = rstrip (String c s).
Proof.
  intros Hc. cbn [rstrip]. destruct (rstrip s); rewrite ?Hc; cbn; rewrite ?Hc; reflexivity.
Qed.

(** Stripping twice is stripping once. *)
Lemma strip_idem s : strip (strip s) = strip s.
Proof.
  unfold strip. pose proof (lstrip_head s) as Hhead.
  destruct (lstrip s) as [|c t]; [reflexivity|].
  rewrite (lstrip_rstrip_head c t Hhead). apply rstrip_idem.
Qed.

Lemma norm_key_idem k : norm_key (norm_key k) = norm_key k.
Proof.
  destruct k as [|s]; cbn; [reflexivity|].
  by rewrite strip_lower, strip_idem, lower_idem.
Qed.

Lemma norm_value_idem v : norm_value (norm_value v) = norm_value v.
Proof. destruct v; cbn; try reflexivity. by rewrite strip_idem. Qed.

Lemma float_of_str_strip s : float_of_str (strip s) = float_of_str s.
Proof. unfold float_of_str. by rewrite strip_idem. Qed.


Lemma norm_fold_normal (r : list (key * value)) (acc : record) :
  (forall k v, acc !! k = Some v -> norm_key k = k /\ norm_value v = v) ->
  forall k v,
    fold_left (fun d '(k, v) => <[norm_key k := norm_value v]> d) r acc !! k = Some v ->
    norm_key k = k /\ norm_value v = v.
Proof.
  revert acc. induction r as [|[k0 v0] r IH]; intros acc Hacc k v; cbn [fold_left].
  - apply Hacc.
  - apply IH. intros k' v' Hk'.
    apply lookup_insert_Some in Hk' as [[<- <-]|[_ Hk']].
    + split; [apply norm_key_idem|apply norm_value_idem].
    + by apply Hacc.
Qed.

(** X7: every record [_load_cities] returns is in normal form: each of its
    field names is trimmed and lowercased already, and each of its text
    values is trimmed already. *)
Theorem load_cities_normal (fs : filesystem) (candidates : option (list string))
    (out : list (list obj)) (cities : list record) :
  _load_cities fs candidates = (out, Ok cities) ->
  forall d k v, d ∈ cities -> d !! k = Some v ->
    norm_key k = k /\ norm_value v = v.
Proof.
  unfold _load_cities. intros Hload d k v Hd Hk.
  assert (exists rows, cities = map norm rows \/ cities = []) as [rows [-> | ->]].
  { destruct (probe fs _) as [[|c p]|]; cbn in Hload.
    - injection Hload as _ <-. exists []. by right.
    - destruct (read_rows fs (String c p)) as [rows|]; [|discriminate].
      injection Hload as _ <-. exists rows. by left.
    - injection Hload as _ <-. exists []. by right. }
  - apply list_elem_of_fmap in Hd as (r & -> & _).
    eapply norm_fold_normal; [|exact Hk].
    intros k' v' Hk'. by rewrite lookup_empty in Hk'.
  - by apply elem_of_nil in Hd.
Qed.

Lemma norm_fold_absent (r : list (key * value)) (acc : record) (k' : key) :
  Forall (fun kv => norm_key kv.1 <> k') r ->
  fold_left (fun d '(k, v) => <[norm_key k := norm_value v]> d) r acc !! k' = acc !! k'.
Proof.
  intros Hr. revert acc. induction Hr as [|[k0 v0] r Hk0 _ IH]; intros acc; cbn [fold_left].
  - reflexivity.
  - rewrite IH. by apply lookup_insert_ne.
Qed.

Lemma norm_fold_origin (r : list (key * value)) (acc : record) (k' : key) (v' : value) :
  fold_left (fun d '(k, v) => <[norm_key k := norm_value v]> d) r acc !! k' = Some v' ->
  acc !! k' = Some v' \/
  exists k v, (k, v) ∈ r /\ k' = norm_key k /\ v' = norm_value v.
Proof.
  revert acc. induction r as [|[k0 v0] r IH]; intros acc; cbn [fold_left].
  - by left.
  - intros Hlook. apply IH in Hlook as [Hlook|(k & v & Hin & -> & ->)].
    + apply lookup_insert_Some in Hlook as [[<- <-]|[_ Hlook]].
      * right. exists k0, v0. split; [left|done].
      * by left.
    + right. exists k, v. split; [by right|done].
Qed.

(** X8: the fields of a normalised row. Every field of the result comes
    from an item of the row, with the name and the value normalised; and
    an item of the row is found under its normalised name unless a later
    item has the same normalised name, in which case the later one is. *)
Theorem norm_lookup (r : list (key * value)) :
  (forall k' v', norm r !! k' = Some v' ->
     exists k v, (k, v) ∈ r /\ k' = norm_key k /\ v' = norm_value v) /\
  (forall r1 k v r2,
     r = r1 ++ (k, v) :: r2 ->
     Forall (fun kv => norm_key kv.1 <> norm_key k) r2 ->
     norm r !! norm_key k = Some (norm_value v)).
Proof.
  unfold norm. split.
  - intros k' v' Hlook. apply norm_fold_origin in Hlook as [Hlook|Hlook]; [|exact Hlook].
    by rewrite lookup_empty in Hlook.
  - intros r1 k v r2 -> Hr2.
    rewrite fold_left_app. cbn [fold_left].
    rewrite (norm_fold_absent r2 _ _ Hr2). apply lookup_insert_eq.
Qed.

Lemma norm_lookup_witness :
  norm [(KStr " Country ", VStr " Spain "); (KStr "COUNTRY", VStr "Italy ")]
    !! KStr "country" = Some (VStr "Italy").
Proof.
  apply (proj2 (norm_lookup _) [(KStr " Country ", VStr " Spain ")]
           (KStr "COUNTRY") (VStr "Italy ") []).
  - reflexivity.
  - constructor.
Defined.

Lemma load_cities_normal_witness :
  norm_key (KStr "country") = KStr "country" /\ norm_value (VStr "Spain") = VStr "Spain".
Proof.
  apply (load_cities_normal
           (only_cities_csv [[(KStr " Country ", VStr " Spain ")]]) None []
           [norm [(KStr " Country ", VStr " Spain ")]] eq_refl
           (norm [(KStr " Country ", VStr " Spain ")])).
  - left.
  - reflexivity.
Defined.

(** ** The selections *)

Lemma germany_condition_iff (d : record) :
  germany_condition d = Ok true <-> is_germany d.
Proof.
  unfold germany_condition, is_germany, get. split.
  - intros [= Hc]. apply String.eqb_eq in Hc.
    destruct (d !! KStr "country") as [c|]; [eauto|discriminate].
  - intros (c & -> & Hc). by rewrite Hc.
Qed.


Lemma elem_of_germany_query (cities kept : list record) (d : record) :
  germany_query cities = Ok kept -> d ∈ kept <-> d ∈ cities /\ is_germany d.
Proof.
  unfold germany_query, germany_condition. rewrite filter_pure. intros [= <-].
  rewrite list_filter_elem_of, <- germany_condition_iff. unfold germany_condition.
  split; (intros [? Hd]; split; [done|]); [by rewrite Hd | by injection Hd].
Qed.

Lemma elem_of_spain_query (cities kept : list record) (d : record) :
  spain_query cities = Ok kept -> d ∈ kept <-> d ∈ cities /\ is_spain_above_12 d.
Proof.
  unfold spain_query, spain_condition. rewrite filter_pure. intros [= <-].
  rewrite list_filter_elem_of, <- spain_condition_iff. unfold spain_condition.
  split; (intros [? Hd]; split; [done|]); [by rewrite Hd | by injection Hd].
Qed.

(** X10: no record is printed both as a city of Germany and as a city of
    Spain: the two selections, both sublists of the dataset, have no
    record in common. *)
Theorem germany_spain_disjoint (cities : list record) :
  exists in_germany in_spain,
    germany_query cities = Ok in_germany /\
    spain_query cities = Ok in_spain /\
    sublist in_germany cities /\
    sublist in_spain cities /\
    forall d, d ∈ in_germany -> d ∉ in_spain.
Proof.
  assert (exists g, germany_query cities = Ok g /\ sublist g cities) as (g & Hg & Hgsub).
  { unfold germany_query, germany_condition. rewrite filter_pure.
    eexists. split; [reflexivity|apply list_filter_sublist]. }
  assert (exists s, spain_query cities = Ok s /\ sublist s cities) as (s & Hs & Hssub).
  { unfold spain_query, spain_condition. rewrite filter_pure.
    eexists. split; [reflexivity|apply list_filter_sublist]. }
  exists g, s. repeat (split; [assumption|]).
  intros d Hdg Hds.
  apply (elem_of_germany_query _ _ _ Hg) in Hdg as [_ (c & Hc & Hger)].
  apply (elem_of_spain_query _ _ _ Hs) in Hds as [_ [(c' & Hc' & Hsp) _]].
  rewrite Hc in Hc'. injection Hc' as <-. rewrite Hger in Hsp. discriminate.
Qed.

(** ** The count of countries *)

Lemma unique_country_query_eq (cities : list record) :
  unique_country_query cities =
    Ok (Z.of_nat (size (country_set (omap (fun d => d !! KStr "country") cities)))).
Proof. unfold unique_country_query. by rewrite aggregate_omap. Qed.

Lemma country_set_cons (x : value) (xs : list value) :
  country_set (x :: xs) =
    (if str_truthy (strip (str x)) then {[country_of x]} else ∅) ∪ country_set xs.
Proof.
  apply set_eq. intros s. rewrite elem_of_union, !elem_of_country_set. split.
  - intros (y & Hy & Hne & ->). apply elem_of_cons in Hy as [->|Hy].
    + left. apply str_truthy_iff in Hne. rewrite Hne. by apply elem_of_singleton.
    + right. eauto.
  - intros [Hs|(y & Hy & Hne & ->)].
    + destruct (str_truthy (strip (str x))) eqn:Hx.
      * apply elem_of_singleton in Hs as ->. apply str_truthy_iff in Hx.
        exists x. split; [left|done].
      * by apply not_elem_of_empty in Hs.
    + exists y. split; [by right|done].
Qed.

Lemma country_set_size (xs : list value) :
  (size (country_set xs) <= length xs)%nat.
Proof.
  induction xs as [|x xs IH]; [reflexivity|].
  rewrite country_set_cons, size_union_alt. cbn [length].
  pose proof (subseteq_size (country_set xs ∖
    (if str_truthy (strip (str x)) then {[country_of x]} else ∅)) (country_set xs)
    ltac:(by apply subseteq_difference_l)) as Hsub.
  destruct (str_truthy (strip (str x))).
  - rewrite size_singleton. lia.
  - rewrite size_empty. lia.
Qed.

Lemma length_omap_le {A B : Type} (f : A -> option B) (l : list A) :
  (length (omap f l) <= length l)%nat.
Proof.
  induction l as [|a l IH]; cbn; [lia|]. destruct (f a); cbn; lia.
Qed.


(** X12: the count of countries depends on which records the dataset holds,
    not on their order nor on how often each one occurs. *)
Theorem unique_country_same_records (cities cities' : list record) :
  (forall d, d ∈ cities <-> d ∈ cities') ->
  unique_country_query cities = unique_country_query cities'.
Proof.
  intros Hsame. rewrite !unique_country_query_eq. do 3 f_equal.
  apply set_eq. intros s. rewrite !elem_of_country_set.
  split; intros (v & (d & Hd & Hv)%list_elem_of_omap & Hrest);
    exists v; (split; [|exact Hrest]); apply list_elem_of_omap;
    exists d; (split; [|exact Hv]); by apply Hsame.
Qed.

Lemma unique_country_same_records_witness :
  unique_country_query [germany_10; spain_15] =
  unique_country_query [spain_15; germany_10; spain_15].
Proof.
  apply (unique_country_same_records [germany_10; spain_15]
           [spain_15; germany_10; spain_15]).
  intros d. rewrite !elem_of_cons. rewrite !elem_of_nil. tauto.
Defined.



(** ** The average temperature on whole datasets *)

Lemma avg_temp_query_eq (cities : list record) :
  avg_temp_query cities = avg_fold (omap (fun d => d !! KStr "temperature") cities).
Proof. unfold avg_temp_query. by rewrite aggregate_omap. Qed.

Lemma fold_add_indicator_clean (xs : list value) (acc : Z) :
  Forall (fun x => is_nan (_to_float x) = false) xs ->
  fold_left Z.add (map (fun x => if is_nan (_to_float x) then 0 else 1) xs) acc =
    acc + Z.of_nat (length xs).
Proof.
  intros Hxs. revert acc. induction Hxs as [|x xs Hx _ IH]; intros acc.
  - cbn. lia.
  - cbn [map fold_left length]. rewrite IH, Hx. lia.
Qed.

Lemma numeric_count_clean (xs : list value) :
  Forall (fun x => is_nan (_to_float x) = false) xs ->
  numeric_count xs = Z.of_nat (length xs).
Proof. intros Hxs. unfold numeric_count, int_sum. by rewrite fold_add_indicator_clean. Qed.

Lemma avg_temp_total (cities : list record) :
  Z.of_nat (length cities) < 2 ^ 1023 -> exists f, avg_temp_query cities = Ok f.
Proof.
  intros Hlen. rewrite avg_temp_query_eq.
  pose proof (length_omap_le (fun d : record => d !! KStr "temperature") cities) as Hle.
  destruct (omap _ cities) as [|t ts] eqn:Hts; [by exists nan|].
  destruct (avg_fold_nonempty (t :: ts)) as (b & _ & ->); [done|lia|eauto].
Qed.

(** X14: on a dataset in which every temperature that is there converts
    to a number, the average is the float sum of the temperatures divided
    by the number of records that have one; the records without a
    temperature count neither in the sum nor in the divisor. *)
Theorem avg_temp_clean (cities : list record) :
  let temps := omap (fun d => d !! KStr "temperature") cities in
  temps <> [] ->
  Forall (fun t => is_nan (_to_float t) = false) temps ->
  Z.of_nat (length cities) < 2 ^ 1023 ->
  exists b,
    float_of_int (Z.of_nat (length temps)) = Ok b /\
    avg_temp_query cities = Ok (fdiv (float_sum (map _to_float temps)) b).
Proof.
  intros temps Hne Hclean Hlen. rewrite avg_temp_query_eq. fold temps.
  pose proof (length_omap_le (fun d : record => d !! KStr "temperature") cities) as Hle.
  fold temps in Hle.
  destruct (avg_fold_nonempty temps Hne ltac:(lia)) as (b & Hb & ->).
  exists b. split; [|reflexivity].
  rewrite (numeric_count_clean temps Hclean) in Hb.
  destruct temps; [done|]. cbn [length] in *.
  by rewrite Z.max_r in Hb by lia.
Qed.

Lemma avg_temp_clean_witness :
  exists b,
    float_of_int 3 = Ok b /\
    avg_temp_query (city [("country", "Italy")] :: scenario_A) =
      Ok (fdiv (float_sum (map _to_float [VStr "10"; VStr "15"; VStr "8"])) b).
Proof.
  apply (avg_temp_clean (city [("country", "Italy")] :: scenario_A)).
  - discriminate.
  - repeat constructor.
  - vm_compute. reflexivity.
Defined.

(** X15: one temperature that is there and does not convert to a number
    (or reads as NaN) makes the average of the whole dataset a NaN,
    whatever the other temperatures are. *)
Theorem avg_temp_poisoned (cities : list record) (d : record) (t : value) :
  d ∈ cities ->
  d !! KStr "temperature" = Some t ->
  is_nan (_to_float t) = true ->
  Z.of_nat (length cities) < 2 ^ 1023 ->
  avg_temp_query cities = Ok nan.
Proof.
  intros Hd Ht Hnan Hlen. rewrite avg_temp_query_eq.
  pose proof (length_omap_le (fun d : record => d !! KStr "temperature") cities) as Hle.
  apply (avg_fold_poisoned _ t); [|exact Hnan|lia].
  apply list_elem_of_omap. eauto.
Qed.

Lemma avg_temp_poisoned_witness : avg_temp_query cities_with_abc = Ok nan.
Proof.
  apply (avg_temp_poisoned cities_with_abc
           (city [("country", "Spain"); ("temperature", "abc")]) (VStr "abc")).
  - right. left.
  - reflexivity.
  - reflexivity.
  - vm_compute. reflexivity.
Defined.

(** X16: when no record has a temperature the fold is called on the empty
    sequence and the average is NaN. *)
Theorem avg_temp_no_temperature (cities : list record) :
  (forall d, d ∈ cities -> d !! KStr "temperature" = None) ->
  avg_temp_query cities = Ok nan.
Proof.
  intros Hnone. rewrite avg_temp_query_eq.
  assert (omap (fun d : record => d !! KStr "temperature") cities = []) as ->; [|reflexivity].
  induction cities as [|d cities IH]; [reflexivity|].
  cbn. rewrite (Hnone d) by left. apply IH. intros d' Hd'. apply Hnone. by right.
Qed.

Lemma avg_temp_no_temperature_witness :
  avg_temp_query [city [("country", "Italy")]; city [("country", "Spain")]] = Ok nan.
Proof.
  apply avg_temp_no_temperature. intros d Hd.
  apply elem_of_cons in Hd as [->|Hd];
    [|apply elem_of_cons in Hd as [->|Hd]; [|by apply elem_of_nil in Hd]];
    reflexivity.
Defined.

(** ** Loading with a list of candidates, and the run of main *)

Lemma probe_first_existing (fs : filesystem) (l : list string) (p : string) :
  first_existing fs l p -> probe fs l = Some p.
Proof. intros (before & after & -> & Hbefore & Hp). by apply probe_first. Qed.

Lemma probe_Some (fs : filesystem) (l : list string) (p : string) :
  probe fs l = Some p -> first_existing fs l p.
Proof.
  induction l as [|q l IH]; [discriminate|]. cbn.
  destruct (path_exists fs q) eqn:Hq.
  - intros [= ->]. exists [], l. by repeat split.
  - intros (before & after & -> & Hbefore & Hp)%IH.
    exists (q :: before), after. split; [reflexivity|]. split; [by constructor|done].
Qed.

Lemma probe_None (fs : filesystem) (l : list string) :
  probe fs l = None -> Forall (fun q => path_exists fs q = false) l.
Proof.
  induction l as [|q l IH]; [constructor|]. cbn.
  destruct (path_exists fs q) eqn:Hq; [discriminate|]. intros Hl. by constructor; [|apply IH].
Qed.

(** X17: [_load_cities] with a list of candidates of the caller. It reads
    the first candidate that exists, and nothing else; when no candidate
    exists, as with the empty list, it prints the one warning and returns
    no city. It always returns either without output or with that one
    line, and the warning comes with an empty result. *)
Theorem load_cities_candidates (fs : filesystem) (l : list string) :
  (Forall (fun q => path_exists fs q = false) l ->
   _load_cities fs (Some l) = ([[OStr not_found_message]], Ok [])) /\
  (forall p, first_existing fs l p -> p <> "" ->
   _load_cities fs (Some l) = lift (rows ← read_rows fs p; Ok (map norm rows))) /\
  (forall out cities, _load_cities fs (Some l) = (out, Ok cities) ->
   out = [] \/ (out = [[OStr not_found_message]] /\ cities = [])).
Proof.
  unfold _load_cities. split; [|split].
  - intros Hnone. by rewrite (probe_none fs l Hnone).
  - intros p Hp Hne. rewrite (probe_first_existing fs l p Hp).
    destruct p as [|c p]; [done|]. destruct (read_rows fs _); reflexivity.
  - intros out cities. destruct (probe fs l) as [[|c p]|]; cbn.
    + intros [= <- <-]. by right.
    + destruct (read_rows fs _); [|discriminate]. intros [= <- _]. by left.
    + intros [= <- <-]. by right.
Qed.

Lemma load_cities_candidates_witness :
  _load_cities no_file (Some []) = ([[OStr not_found_message]], Ok []) /\
  _load_cities (only_cities_csv []) (Some ["a.csv"; "Cities.csv"; "b.csv"]) =
    lift (rows ← read_rows (only_cities_csv []) "Cities.csv"; Ok (map norm rows)).
Proof.
  split.
  - apply (load_cities_candidates no_file []). constructor.
  - apply (load_cities_candidates (only_cities_csv []) ["a.csv"; "Cities.csv"; "b.csv"]).
    + exists ["a.csv"], ["b.csv"]. split; [reflexivity|]. split; [repeat constructor|reflexivity].
    + discriminate.
Defined.

Lemma load_cities_default (fs : filesystem) (p : string) :
  first_existing fs default_candidates p ->
  _load_cities fs None = lift (rows ← read_rows fs p; Ok (map norm rows)).
Proof.
  intros Hp. unfold _load_cities. rewrite (probe_first_existing _ _ _ Hp).
  destruct Hp as (before & after & Hsplit & _ & _).
  assert (p ∈ default_candidates) as Hin
    by (rewrite Hsplit; apply elem_of_app; right; left).
  unfold default_candidates in Hin.
  repeat (apply elem_of_cons in Hin as [-> | Hin]);
    [destruct (read_rows fs _); reflexivity.. | by apply elem_of_nil in Hin].
Qed.

(** X18: an exception raised while the file is opened or read is not
    handled: [main] ends with that exception and has printed nothing. *)
Theorem main_read_error (fs : filesystem) (p : string) (e : exn) :
  first_existing fs default_candidates p ->
  read_rows fs p = Raise e ->
  main fs = ([], Raise e).
Proof.
  intros Hp He. unfold main. rewrite (load_cities_default fs p Hp), He. reflexivity.
Qed.

Lemma main_read_error_witness :
  main {| path_exists := fun p => String.eqb p "Cities.csv";
          read_rows := fun _ => Raise UnicodeDecodeError |} = ([], Raise UnicodeDecodeError).
Proof.
  apply (main_read_error _ "Cities.csv").
  - exists ["./Cities.csv"], ["/content/Cities.csv"; "/mnt/data/Cities.csv"].
    split; [reflexivity|]. split; [repeat constructor|reflexivity].
  - reflexivity.
Defined.

Lemma for_each_print (l : list record) :
  for_each l (fun c => print [ORecord c]) = (map (fun c => [ORecord c]) l, Ok tt).
Proof.
  induction l as [|c l IH]; [reflexivity|].
  cbn [for_each map]. rewrite IH. reflexivity.
Qed.

(** What [main] does once the cities are there. *)
Lemma main_after_load (fs : filesystem) (cities : list record)
    (avg : float) (g s : list record) (n : Z) :
  _load_cities fs None = ([], Ok cities) ->
  cities <> [] ->
  avg_temp_query cities = Ok avg ->
  germany_query cities = Ok g ->
  spain_query cities = Ok s ->
  unique_country_query cities = Ok n ->
  main fs = (report avg g s n, Ok tt).
Proof.
  intros Hload Hne Havg Hg Hs Hn. unfold main. rewrite Hload.
  destruct cities as [|c cities']; [done|].
  set (cities := c :: cities') in *.
  cbn [mbind io_bind app]. unfold cities at 1.
  rewrite Havg, Hg, Hs, Hn.
  cbn [lift print mbind io_bind app].
  rewrite !for_each_print. cbn [mbind io_bind app]. unfold report. cbn [app].
  reflexivity.
Qed.



(** ** filter: when everything or nothing is kept *)

(** X20: [filter] returns the dataset as it is exactly when every record
    satisfies the predicate, and the empty list exactly when no record
    does. *)
Theorem filter_all_none {A : Type} (P : A -> bool) (D : list A) :
  (filter (fun d => Ok (P d)) D = Ok D <-> Forall (fun d => P d = true) D) /\
  (filter (fun d => Ok (P d)) D = Ok [] <-> Forall (fun d => P d = false) D).
Proof.
  rewrite filter_pure. split; split.
  - intros [= Hall]. induction D as [|d D IH]; [constructor|].
    cbn in Hall. destruct (P d) eqn:Hd.
    + injection Hall as Hall. constructor; [exact Hd|by apply IH].
    + pose proof (sublist_length _ _ (list_filter_sublist P D)) as Hlen.
      rewrite Hall in Hlen. cbn in Hlen. lia.
  - intros Hall. f_equal. induction Hall as [|d D Hd _ IH]; [reflexivity|].
    cbn. by rewrite Hd, IH.
  - intros [= Hnone]. induction D as [|d D IH]; [constructor|].
    cbn in Hnone. destruct (P d) eqn:Hd; [discriminate|].
    constructor; [exact Hd|by apply IH].
  - intros Hnone. f_equal. induction Hnone as [|d D Hd _ IH]; [reflexivity|].
    cbn. by rewrite Hd.
Qed.
